(** * The ClickHouse client orchestrator, embedded shallowly.

    The development follows the source file: JavaScript strings and the
    two string helpers ([removeTrailingSemi], [formatQuery]), the
    configuration records and their resolution ([getConnectionParams],
    [createUrl], [validateConnectionParams]), and the client methods
    ([query], [exec], [command], [insert], [ping], [close]) written in a
    state-and-exception monad that records every call made to the
    injected implementation (connection, values encoder, result-set
    factory, stream closer). *)

From stdpp Require Import base option list gmap strings.
From Stdlib Require Import NArith Ascii PrimFloat.

Set Default Proof Using "Type".

(** ** JavaScript strings

    A JavaScript string is a finite sequence of UTF-16 code units.  Code
    units are natural numbers; string literals of the source are written
    through [js]. *)

Module JsString.

Abbreviation t := (list N).

Fixpoint js (s : string) : list N :=
  match s with
  | EmptyString => []
  | String a r => N_of_ascii a :: js r
  end.

(** The code unit of [';']. *)
Definition semi : N := 59%N.

(** [WhiteSpace] and [LineTerminator] code points of ECMAScript, the
    characters removed by [String.prototype.trim]. *)
Definition is_white_space (c : N) : bool :=
  ((9 <=? c) && (c <=? 13) || (c =? 32) || (c =? 160) || (c =? 5760)
   || (8192 <=? c) && (c <=? 8202) || (c =? 8232) || (c =? 8233)
   || (c =? 8239) || (c =? 8287) || (c =? 12288) || (c =? 65279))%N.

Fixpoint trimStart (s : list N) : list N :=
  match s with
  | [] => []
  | c :: r => if is_white_space c then trimStart r else s
  end.

Definition trimEnd (s : list N) : list N :=
  reverse (trimStart (reverse s)).

(** [String.prototype.trim] *)
Definition trim (s : list N) : list N := trimEnd (trimStart s).

(** Truthiness of a string value: only the empty string is falsy. *)
Definition truthy (s : list N) : bool :=
  match s with [] => false | _ => true end.

(** The text is not empty and neither starts nor ends with white space. *)
Definition visible_ends (s : list N) : bool :=
  match head s, last s with
  | Some a, Some b => negb (is_white_space a) && negb (is_white_space b)
  | _, _ => false
  end.

End JsString.

Import JsString.

(** ** [removeTrailingSemi] and [formatQuery] *)

(** The [for] loop of [removeTrailingSemi]: [i] runs from [query.length]
    down to [1]; the first [i] with [query[i - 1] !== ';'] is the value
    left in [lastNonSemiIdx]; when the loop runs out, [lastNonSemiIdx]
    keeps its initial value. *)
Fixpoint scanBack (query : list N) (i lastNonSemiIdx : nat) : nat :=
  match i with
  | O => lastNonSemiIdx
  | S j =>
      if decide (query !! j = Some semi)
      then scanBack query j lastNonSemiIdx
      else i
  end.

Definition removeTrailingSemi (query : list N) : list N :=
  let lastNonSemiIdx := scanBack query (length query) (length query) in
  if decide (lastNonSemiIdx ≠ length query)
  then take lastNonSemiIdx query
  else query.

(** What the name promises: the text without the maximal run of [';'] at
    its end.  Used only to compare [removeTrailingSemi] with. *)
Fixpoint dropLeadingSemis (query : list N) : list N :=
  match query with
  | [] => []
  | c :: r => if decide (c = semi) then dropLeadingSemis r else query
  end.

Definition dropTrailingSemis (query : list N) : list N :=
  reverse (dropLeadingSemis (reverse query)).

Definition endsWithSemi (s : list N) : Prop := last s = Some semi.

(** ** Outcomes, thrown values and the call monad *)

Section outcome.

Context {Exn : Type}.

(** A thrown value: an [Error] object made by the client itself
    ([new Error(message)]), or whatever the injected implementation
    throws or rejects with. *)
Inductive JsError :=
| Error (message : list N)
| Thrown (e : Exn).

(** A call returns (a promise fulfils) or throws (a promise rejects). *)
Inductive Outcome (A : Type) :=
| Return (a : A)
| Throw (e : JsError).

End outcome.

Arguments JsError : clear implicits.
Arguments Outcome : clear implicits.
Arguments Return {Exn A} a.
Arguments Throw {Exn A} e.

(** ** Data formats

    [DataFormat] is imported from client-common: a union of string
    literals, the names of the formats.  The empty string is not a member
    of the type, so a format is a name together with the fact that the
    name is not empty. *)
Record DataFormat := {
  format_name : list N;
  format_name_nonempty : format_name ≠ [];
}.

Definition JSON : DataFormat :=
  {| format_name := js "JSON"; format_name_nonempty := ltac:(done) |}.

Definition JSONCompactEachRow : DataFormat :=
  {| format_name := js "JSONCompactEachRow";
     format_name_nonempty := ltac:(done) |}.

(** [format ?? d] *)
Definition nullish_or (format : option DataFormat) (d : DataFormat)
  : DataFormat :=
  match format with
  | Some f => f
  | None => d
  end.

(** [format || d]: a format given with a falsy (empty) name also yields
    [d]. *)
Definition falsy_or (format : option DataFormat) (d : DataFormat)
  : DataFormat :=
  match format with
  | Some f => if truthy (format_name f) then f else d
  | None => d
  end.

(** The line feed of the [' \nFORMAT '] literal. *)
Definition LF : N := 10%N.

Definition formatQuery (query : list N) (format : DataFormat) : list N :=
  let query := trim query in
  let query := removeTrailingSemi query in
  query ++ (js " " ++ [LF] ++ js "FORMAT ") ++ format_name format.

(** ** The client *)

Section client.

(** The stream type the client is generic in, the types the source
    imports from client-common or the platform, and the state of
    everything outside the client (server, sockets, encoder state). *)
Context {Stream Values SettingVal ParamVal AbortSignal : Type}.
Context {LogLevel LoggerClass Logger LogWriter : Type}.
Context {ResultSet ConnInsertResult Exn URL World : Type}.

(** Code outside the client acts on the outside world and returns or
    throws. *)
Definition Ext (A : Type) : Type := World → Outcome Exn A * World.

(** Platform and client-common operations used by
    [getConnectionParams]: [new URL(host)] ([None] when it throws),
    [url.protocol], and the constructors of a logger class of the
    caller, of [DefaultLogger] and of [LogWriter], which run code
    outside the client. *)
Record Platform := {
  new_URL : list N → option URL;
  protocol : URL → list N;
  new_LoggerClass : LoggerClass → Ext Logger;
  new_DefaultLogger : Ext Logger;
  new_LogWriter : Logger → option LogLevel → Ext LogWriter;
}.

Abbreviation Settings := (gmap (list N) SettingVal).

(** *** Resolved connection parameters

    JavaScript numbers are the binary64 floating-point numbers. *)

Record Compression := {
  decompress_response : bool;
  compress_request : bool;
}.

Record ConnectionParams := {
  cp_application_id : option (list N);
  cp_url : URL;
  cp_request_timeout : float;
  cp_max_open_connections : float;
  cp_compression : Compression;
  cp_username : list N;
  cp_password : list N;
  cp_database : list N;
  cp_clickhouse_settings : Settings;
  cp_logWriter : LogWriter;
}.

(** *** Per-call parameters *)

Record BaseQueryParams := {
  bq_clickhouse_settings : option Settings;
  bq_query_params : option (gmap (list N) ParamVal);
  bq_abort_signal : option AbortSignal;
  bq_query_id : option (list N);
  bq_session_id : option (list N);
}.

Record QueryParams := {
  qp_base : BaseQueryParams;
  qp_query : list N;
  qp_format : option DataFormat;
}.

Record ExecParams := {
  ep_base : BaseQueryParams;
  ep_query : list N;
}.

Abbreviation CommandParams := ExecParams.

Record CommandResult := { cr_query_id : list N }.

Record InsertParams := {
  ip_base : BaseQueryParams;
  ip_table : list N;
  ip_values : Values;
  ip_format : option DataFormat;
}.

(** *** What the connection receives and returns *)

(** The object returned by [getQueryParams]. *)
Record CallParams := {
  clickhouse_settings : Settings;
  query_params : option (gmap (list N) ParamVal);
  abort_signal : option AbortSignal;
  query_id : option (list N);
  session_id : option (list N);
}.

(** [{ query, ...this.getQueryParams(params) }] *)
Record ConnBaseQueryParams := {
  rq_query : list N;
  rq_params : CallParams;
}.

(** [{ query, values, ...this.getQueryParams(params) }] *)
Record ConnInsertParams := {
  ri_query : list N;
  ri_values : list N + Stream;
  ri_params : CallParams;
}.

Record ConnQueryResult := {
  stream : Stream;
  res_query_id : list N;
}.

(** Modelled from the spec: the result of a ping, whose declaration is
    not among the sources: a success, or a failure that carries the
    error inline ([{ success, error? }]). *)
Inductive ConnPingResult :=
| PingSuccess
| PingFailure (error : JsError Exn).

(** *** The injected implementation *)

Record Connection := {
  conn_query : ConnBaseQueryParams → Ext ConnQueryResult;
  conn_exec : ConnBaseQueryParams → Ext ConnQueryResult;
  conn_insert : ConnInsertParams → Ext ConnInsertResult;
  conn_ping : Ext ConnPingResult;
  conn_close : Ext unit;
}.

Record ValuesEncoder := {
  validateInsertValues : Values → DataFormat → Ext unit;
  encodeValues : Values → DataFormat → Ext (list N + Stream);
}.

Record Impl := {
  make_connection : ConnectionParams → Ext Connection;
  make_result_set : Stream → DataFormat → list N → Ext ResultSet;
  values_encoder : ValuesEncoder;
  close_stream : Stream → Ext unit;
}.

Record LogOptions := {
  log_LoggerClass : option LoggerClass;
  log_level : option LogLevel;
}.

Record CompressionOptions := {
  co_response : option bool;
  co_request : option bool;
}.

Record ClickHouseClientConfigOptions := {
  cfg_impl : Impl;
  cfg_host : option (list N);
  cfg_request_timeout : option float;
  cfg_max_open_connections : option float;
  cfg_compression : option CompressionOptions;
  cfg_username : option (list N);
  cfg_password : option (list N);
  cfg_application : option (list N);
  cfg_database : option (list N);
  cfg_clickhouse_settings : option Settings;
  cfg_log : option LogOptions;
  cfg_session_id : option (list N);
}.

(** *** Calls made by the client into the injected implementation, in
    the order they are made *)

Inductive Event :=
| MakeConnection (p : ConnectionParams)
| MakeResultSet (s : Stream) (f : DataFormat) (id : list N)
| ValidateInsertValues (v : Values) (f : DataFormat)
| EncodeValues (v : Values) (f : DataFormat)
| CloseStream (s : Stream)
| ConnQuery (r : ConnBaseQueryParams)
| ConnExec (r : ConnBaseQueryParams)
| ConnInsert (r : ConnInsertParams)
| ConnPing
| ConnClose.

Record State := {
  trace : list Event;
  world : World;
}.

(** The monad of the client's methods: state and exceptions; the state
    left by a call that throws is kept. *)
Definition M (A : Type) : Type := State → Outcome Exn A * State.

#[export] Instance M_ret : MRet M := λ A a s, (Return a, s).

#[export] Instance M_bind : MBind M := λ A B k m s,
  match m s with
  | (Return a, s') => k a s'
  | (Throw e, s') => (Throw e, s')
  end.

(** A pure computation that may throw, run inside a method. *)
Definition lift {A} (o : Outcome Exn A) : M A := λ s, (o, s).

(** One call into the implementation: it is recorded, then it happens. *)
Definition call {A} (ev : Event) (f : Ext A) : M A := λ s,
  let '(r, w) := f (world s) in
  (r, {| trace := trace s ++ [ev]; world := w |}).

(** Code outside the injected implementation that a method runs: it
    happens, and is not recorded. *)
Definition run {A} (f : Ext A) : M A := λ s,
  let '(r, w) := f (world s) in
  (r, {| trace := trace s; world := w |}).

(** *** Configuration resolution *)

Context (platform : Platform).

Definition DQUOTE : N := 34%N.

Definition createUrl (host : list N) : Outcome Exn URL :=
  match new_URL platform host with
  | Some url => Return url
  | None =>
      Throw (Error (js "Configuration parameter " ++ [DQUOTE] ++ js "host"
                    ++ [DQUOTE] ++ js " contains malformed url."))
  end.

Definition validateConnectionParams (p : ConnectionParams)
  : Outcome Exn unit :=
  let url := cp_url p in
  if decide (protocol platform url ≠ js "http:"
             ∧ protocol platform url ≠ js "https:")
  then Throw (Error (js "Only http(s) protocol is supported, but given: ["
                     ++ protocol platform url ++ js "]"))
  else Return ().

(** The [logWriter] property of the object literal: the logger is
    constructed first, from the class of the configuration when there is
    one and by default otherwise, then the log writer on it. *)
Definition newLogWriter (config : ClickHouseClientConfigOptions)
  : Ext LogWriter := λ w,
  match (match cfg_log config ≫= log_LoggerClass with
         | Some cls => new_LoggerClass platform cls
         | None => new_DefaultLogger platform
         end) w with
  | (Return logger, w1) =>
      new_LogWriter platform logger (cfg_log config ≫= log_level) w1
  | (Throw e, w1) => (Throw e, w1)
  end.

(** The properties of the object literal are evaluated in order:
    [createUrl] runs, and may throw, before the log writer is made. *)
Definition getConnectionParams (config : ClickHouseClientConfigOptions)
  : Ext ConnectionParams := λ w,
  match createUrl (default (js "http://localhost:8123") (cfg_host config)) with
  | Throw e => (Throw e, w)
  | Return url =>
      match newLogWriter config w with
      | (Throw e, w1) => (Throw e, w1)
      | (Return logWriter, w1) =>
          (Return {|
             cp_application_id := cfg_application config;
             cp_url := url;
             cp_request_timeout :=
               default 300000%float (cfg_request_timeout config);
             cp_max_open_connections :=
               default infinity (cfg_max_open_connections config);
             cp_compression := {|
               decompress_response :=
                 default true (cfg_compression config ≫= co_response);
               compress_request :=
                 default false (cfg_compression config ≫= co_request);
             |};
             cp_username := default (js "default") (cfg_username config);
             cp_password := default (js "") (cfg_password config);
             cp_database := default (js "default") (cfg_database config);
             cp_clickhouse_settings :=
               default ∅ (cfg_clickhouse_settings config);
             cp_logWriter := logWriter;
           |}, w1)
      end
  end.

(** *** The client object *)

Record ClickHouseClient := {
  connectionParams : ConnectionParams;
  connection : Connection;
  makeResultSet : Stream → DataFormat → list N → Ext ResultSet;
  valuesEncoder : ValuesEncoder;
  closeStream : Stream → Ext unit;
  sessionId : option (list N);
}.

(** [new ClickHouseClient(config)] *)
Definition constructor (config : ClickHouseClientConfigOptions)
  : M ClickHouseClient :=
  connectionParams ← run (getConnectionParams config);
  let sessionId := cfg_session_id config in
  _ ← lift (validateConnectionParams connectionParams);
  connection ← call (MakeConnection connectionParams)
                    (make_connection (cfg_impl config) connectionParams);
  mret {|
    connectionParams := connectionParams;
    connection := connection;
    makeResultSet := make_result_set (cfg_impl config);
    valuesEncoder := values_encoder (cfg_impl config);
    closeStream := close_stream (cfg_impl config);
    sessionId := sessionId;
  |}.

(** *** Methods *)

Context (this : ClickHouseClient).

(** [{ ...a, ...b }]: the keys of [b] override those of [a]; an
    [undefined] operand contributes nothing.  ([∪] on maps prefers its
    left operand.) *)
Definition spread (a : Settings) (b : option Settings) : Settings :=
  default ∅ b ∪ a.

Definition getQueryParams (params : BaseQueryParams) : CallParams := {|
  clickhouse_settings :=
    spread (cp_clickhouse_settings (connectionParams this))
           (bq_clickhouse_settings params);
  query_params := bq_query_params params;
  abort_signal := bq_abort_signal params;
  query_id := bq_query_id params;
  session_id := sessionId this;
|}.

Definition query (params : QueryParams) : M ResultSet :=
  let format := nullish_or (qp_format params) JSON in
  let query := formatQuery (qp_query params) format in
  let request := {| rq_query := query;
                    rq_params := getQueryParams (qp_base params) |} in
  r ← call (ConnQuery request) (conn_query (connection this) request);
  call (MakeResultSet (stream r) format (res_query_id r))
       (makeResultSet this (stream r) format (res_query_id r)).

Definition exec (params : ExecParams) : M ConnQueryResult :=
  let query := removeTrailingSemi (trim (ep_query params)) in
  let request := {| rq_query := query;
                    rq_params := getQueryParams (ep_base params) |} in
  call (ConnExec request) (conn_exec (connection this) request).

Definition command (params : CommandParams) : M CommandResult :=
  r ← exec params;
  _ ← call (CloseStream (stream r)) (closeStream this (stream r));
  mret {| cr_query_id := res_query_id r |}.

Definition insert (params : InsertParams) : M ConnInsertResult :=
  let format := falsy_or (ip_format params) JSONCompactEachRow in
  _ ← call (ValidateInsertValues (ip_values params) format)
           (validateInsertValues (valuesEncoder this)
                                 (ip_values params) format);
  let query := js "INSERT INTO " ++ trim (ip_table params)
               ++ js " FORMAT " ++ format_name format in
  values ← call (EncodeValues (ip_values params) format)
                (encodeValues (valuesEncoder this)
                              (ip_values params) format);
  let request := {| ri_query := query;
                    ri_values := values;
                    ri_params := getQueryParams (ip_base params) |} in
  call (ConnInsert request) (conn_insert (connection this) request).

Definition ping : M ConnPingResult :=
  call ConnPing (conn_ping (connection this)).

Definition close : M unit :=
  call ConnClose (conn_close (connection this)).

End client.

(** ** The ping of a connection *)

Section connection_ping.

Context {Exn World : Type}.

(** Modelled from the spec: the [ping] of a connection.  The connection
    implementations are not among the sources; the specification says
    of them that [ping] never raises on failure and reports success or
    failure inside the result value.  [request] is the transport request
    the connection makes. *)
Definition spec_connection_ping (request : World → Outcome Exn unit * World)
  : World → Outcome Exn (@ConnPingResult Exn) * World := λ w,
  match request w with
  | (Return _, w') => (Return PingSuccess, w')
  | (Throw e, w') => (Return (PingFailure e), w')
  end.

End connection_ping.

(** ** A concrete instance

    Small stand-ins for the platform and for the injected implementation,
    to run the client on concrete inputs: streams and the outside world
    are counters, thrown values and setting values are strings.  A
    logger class is a boolean, telling whether its constructor returns. *)

Definition COLON : N := 58%N.

(** Stand-in for [new URL(host)], keeping the protocol only: the text up
    to and including the first [':']; a host without [':'] does not
    parse. *)
Fixpoint sample_new_URL (host : list N) : option (list N) :=
  match host with
  | [] => None
  | c :: r => if (c =? COLON)%N then Some [c] else (c ::.) <$> sample_new_URL r
  end.

Definition sample_platform
  : Platform (LogLevel := nat) (LoggerClass := bool) (Logger := unit)
             (LogWriter := unit) (Exn := list N) (URL := list N)
             (World := nat) :=
  {| new_URL := sample_new_URL;
     protocol := id;
     new_LoggerClass := λ (returns : bool) (w : nat),
       if returns then (Return (), w)
       else (Throw (Thrown (js "logger failed")), w);
     new_DefaultLogger := λ w, (Return (), w);
     new_LogWriter := λ _ _ w, (Return (), w) |}.

(** A connection that answers every request, counting the calls in the
    world, and whose ping request is refused; an encoder that rejects an
    empty array of values. *)
Definition sample_connection
  : Connection (Stream := nat) (SettingVal := list N) (ParamVal := unit)
               (AbortSignal := unit) (ConnInsertResult := list N)
               (Exn := list N) (World := nat) :=
  {| conn_query := λ _ w,
       (Return {| stream := w; res_query_id := js "q1" |}, S w);
     conn_exec := λ _ w,
       (Return {| stream := w; res_query_id := js "q2" |}, S w);
     conn_insert := λ _ w, (Return (js "q3"), S w);
     conn_ping :=
       spec_connection_ping (λ w, (Throw (Thrown (js "ECONNREFUSED")), S w));
     conn_close := λ w, (Return (), w) |}.

Definition sample_values_encoder
  : ValuesEncoder (Stream := nat) (Values := list nat)
                  (Exn := list N) (World := nat) :=
  {| validateInsertValues := λ values _ w,
       match values with
       | [] => (Throw (Thrown (js "no values")), w)
       | _ => (Return (), w)
       end;
     encodeValues := λ _ _ w, (Return (inl (js "[1]")), w) |}.

Definition sample_impl
  : Impl (LogWriter := unit) (URL := list N)
         (ResultSet := nat * DataFormat * list N) :=
  {| make_connection := λ _ w, (Return sample_connection, w);
     make_result_set := λ s f id w, (Return (s, f, id), w);
     values_encoder := sample_values_encoder;
     close_stream := λ _ w, (Return (), w) |}.

Definition sample_config (host : option (list N))
  : ClickHouseClientConfigOptions (LogLevel := nat) (LoggerClass := bool) :=
  {| cfg_impl := sample_impl;
     cfg_host := host;
     cfg_request_timeout := None;
     cfg_max_open_connections := None;
     cfg_compression := None;
     cfg_username := None;
     cfg_password := None;
     cfg_application := None;
     cfg_database := None;
     cfg_clickhouse_settings := None;
     cfg_log := None;
     cfg_session_id := None |}.

Definition sample_client
  : ClickHouseClient (Values := list nat)
                     (LogWriter := unit) (URL := list N)
                     (ResultSet := nat * DataFormat * list N) :=
  {| connectionParams :=
       {| cp_application_id := None;
          cp_url := js "http:";
          cp_request_timeout := 300000%float;
          cp_max_open_connections := infinity;
          cp_compression :=
            {| decompress_response := true; compress_request := false |};
          cp_username := js "default";
          cp_password := js "";
          cp_database := js "default";
          cp_clickhouse_settings := ∅;
          cp_logWriter := () |};
     connection := sample_connection;
     makeResultSet := λ s f id w, (Return (s, f, id), w);
     valuesEncoder := sample_values_encoder;
     closeStream := λ _ w, (Return (), w);
     sessionId := None |}.

Definition sample_base
  : BaseQueryParams (SettingVal := list N) (ParamVal := unit)
                    (AbortSignal := unit) :=
  {| bq_clickhouse_settings := None;
     bq_query_params := None;
     bq_abort_signal := None;
     bq_query_id := None;
     bq_session_id := Some (js "s1") |}.

Definition sample_insert (table : list N) (values : list nat)
  : InsertParams (SettingVal := list N) (ParamVal := unit)
                 (AbortSignal := unit) :=
  {| ip_base := sample_base;
     ip_table := table;
     ip_values := values;
     ip_format := None |}.

Definition sample_state
  : State (Stream := nat) (Values := list nat) (SettingVal := list N)
          (ParamVal := unit) (AbortSignal := unit)
          (LogWriter := unit) (URL := list N) (World := nat) :=
  {| trace := []; world := 0 |}.

(** ** The HTTPS connection of Node.js

    [NodeHttpsConnection] builds the options of its [Https.Agent] and the
    default headers of its requests from the connection parameters. *)

Section https_connection.

(** [Buffer] is the type of certificates and keys, [HeaderVal] the type
    of the values of [Http.OutgoingHttpHeaders], into which a string goes
    as it is; [TLS] is the type of [params.tls], declared with
    [NodeConnectionParams] outside these sources: the class reads its
    [type] (a string), [ca_cert], [key] and [cert]. *)
Context {Buffer Number HeaderVal TLS : Type}.
Context (header_string : list N → HeaderVal).
Context (tls_type : TLS → list N) (tls_ca_cert tls_key tls_cert : TLS → Buffer).

(** The fields of [NodeConnectionParams] this class reads. *)
Record NodeConnectionParams := {
  keep_alive_enabled : bool;
  max_open_connections : Number;
  tls : option TLS;
}.

(** The argument of [new Https.Agent]. *)
Record AgentOptions := {
  keepAlive : bool;
  maxSockets : Number;
  ca : option Buffer;
  key : option Buffer;
  cert : option Buffer;
}.

(** The object literal of the constructor. *)
Definition httpsAgentOptions (params : NodeConnectionParams) : AgentOptions :=
  {| keepAlive := keep_alive_enabled params;
     maxSockets := max_open_connections params;
     ca := tls_ca_cert <$> tls params;
     key := match tls params with
            | Some t => if decide (tls_type t = js "Mutual")
                        then Some (tls_key t) else None
            | None => None
            end;
     cert := match tls params with
             | Some t => if decide (tls_type t = js "Mutual")
                         then Some (tls_cert t) else None
             | None => None
             end |}.

(** [buildDefaultHeaders]; [super_buildDefaultHeaders] is the method of
    the base class it overrides. *)
Definition buildDefaultHeaders
    (super_buildDefaultHeaders : list N → list N → gmap (list N) HeaderVal)
    (params : NodeConnectionParams) (username password : list N)
  : gmap (list N) HeaderVal :=
  if decide (tls_type <$> tls params = Some (js "Mutual")) then
    <[js "X-ClickHouse-SSL-Certificate-Auth" := header_string (js "on")]>
      (<[js "X-ClickHouse-Key" := header_string password]>
         (<[js "X-ClickHouse-User" := header_string username]> ∅))
  else if decide (tls_type <$> tls params = Some (js "Basic")) then
    <[js "X-ClickHouse-Key" := header_string password]>
      (<[js "X-ClickHouse-User" := header_string username]> ∅)
  else super_buildDefaultHeaders username password.

End https_connection.

(** ** More concrete instances *)

(** A connection whose own ping rejects, and an encoder whose encoding
    throws. *)
Definition sample_rejecting_connection
  : Connection (Stream := nat) (SettingVal := list N) (ParamVal := unit)
               (AbortSignal := unit) (ConnInsertResult := list N)
               (Exn := list N) (World := nat) :=
  {| conn_query := λ _ w, (Throw (Thrown (js "ECONNRESET")), S w);
     conn_exec := conn_exec sample_connection;
     conn_insert := conn_insert sample_connection;
     conn_ping := λ w, (Throw (Thrown (js "ECONNREFUSED")), S w);
     conn_close := conn_close sample_connection |}.

Definition sample_throwing_encoder
  : ValuesEncoder (Stream := nat) (Values := list nat)
                  (Exn := list N) (World := nat) :=
  {| validateInsertValues := λ _ _ w, (Return (), w);
     encodeValues := λ _ _ w, (Throw (Thrown (js "cannot encode")), w) |}.

Definition sample_client_with
    (connection : Connection (Stream := nat) (SettingVal := list N)
                    (ParamVal := unit) (AbortSignal := unit)
                    (ConnInsertResult := list N) (Exn := list N)
                    (World := nat))
    (encoder : ValuesEncoder (Stream := nat) (Values := list nat)
                 (Exn := list N) (World := nat))
  : ClickHouseClient (Values := list nat)
                     (LogWriter := unit) (URL := list N)
                     (ResultSet := nat * DataFormat * list N) :=
  {| connectionParams := connectionParams sample_client;
     connection := connection;
     makeResultSet := makeResultSet sample_client;
     valuesEncoder := encoder;
     closeStream := closeStream sample_client;
     sessionId := None |}.

(** TLS parameters as a pair of a type and a certificate, standing for
    all three buffers. *)
Definition sample_node_params (tls : option (list N * nat))
  : NodeConnectionParams (Number := option N) :=
  {| keep_alive_enabled := true;
     max_open_connections := None;
     tls := tls |}.

(** A configuration that names a logger class. *)
Definition sample_config_logging (host : option (list N)) (cls : bool)
  : ClickHouseClientConfigOptions (LogLevel := nat) (LoggerClass := bool) :=
  {| cfg_impl := sample_impl;
     cfg_host := host;
     cfg_request_timeout := None;
     cfg_max_open_connections := None;
     cfg_compression := None;
     cfg_username := None;
     cfg_password := None;
     cfg_application := None;
     cfg_database := None;
     cfg_clickhouse_settings := None;
     cfg_log := Some {| log_LoggerClass := Some cls; log_level := None |};
     cfg_session_id := None |}.

(** A configuration with connection-level settings and a session id. *)
Definition sample_config_with
    (settings : gmap (list N) (list N)) (session : list N)
  : ClickHouseClientConfigOptions (LogLevel := nat) (LoggerClass := bool) :=
  {| cfg_impl := sample_impl;
     cfg_host := Some (js "https://example.com:8443");
     cfg_request_timeout := None;
     cfg_max_open_connections := None;
     cfg_compression := None;
     cfg_username := None;
     cfg_password := None;
     cfg_application := None;
     cfg_database := None;
     cfg_clickhouse_settings := Some settings;
     cfg_log := None;
     cfg_session_id := Some session |}.

(** Headers of a base class that authenticates with [Authorization]. *)
Definition sample_super_headers (username password : list N)
  : gmap (list N) (list N) :=
  {[ js "Authorization" := username ++ js ":" ++ password ]}.

(** * Facts about the string helpers *)

Section string_facts.

Implicit Types (s t ws : list N) (c : N).

Lemma trimStart_app_ws ws s :
  Forall (λ c, is_white_space c = true) ws →
  trimStart (ws ++ s) = trimStart s.
Proof.
  induction 1 as [|c ws Hc _ IH]; simpl; [done|]. by rewrite Hc.
Qed.

Lemma trimEnd_app_ws s ws :
  Forall (λ c, is_white_space c = true) ws →
  trimEnd (s ++ ws) = trimEnd s.
Proof.
  intros Hws. unfold trimEnd. rewrite reverse_app.
  rewrite trimStart_app_ws; [done|]. by apply Forall_reverse.
Qed.

Lemma trimEnd_snoc s c :
  is_white_space c = false → trimEnd (s ++ [c]) = s ++ [c].
Proof.
  intros Hc. unfold trimEnd.
  rewrite reverse_app, reverse_singleton. simpl. rewrite Hc.
  by rewrite reverse_cons, reverse_involutive.
Qed.

Lemma trim_blank ws :
  Forall (λ c, is_white_space c = true) ws → trim ws = [].
Proof.
  intros Hws. unfold trim.
  replace ws with (ws ++ []) by apply app_nil_r.
  by rewrite trimStart_app_ws.
Qed.

Lemma trim_wrapped ws1 a mid b ws2 :
  Forall (λ c, is_white_space c = true) ws1 →
  Forall (λ c, is_white_space c = true) ws2 →
  is_white_space a = false →
  is_white_space b = false →
  trim (ws1 ++ (a :: mid ++ [b]) ++ ws2) = a :: mid ++ [b].
Proof.
  intros H1 H2 Ha Hb. unfold trim.
  rewrite trimStart_app_ws by done.
  simpl. rewrite Ha.
  change (a :: (mid ++ [b]) ++ ws2) with ((a :: mid ++ [b]) ++ ws2).
  rewrite trimEnd_app_ws by done.
  change (a :: mid ++ [b]) with ((a :: mid) ++ [b]).
  by apply trimEnd_snoc.
Qed.

Lemma trim_wrapped_single ws1 a ws2 :
  Forall (λ c, is_white_space c = true) ws1 →
  Forall (λ c, is_white_space c = true) ws2 →
  is_white_space a = false →
  trim (ws1 ++ [a] ++ ws2) = [a].
Proof.
  intros H1 H2 Ha. unfold trim.
  rewrite trimStart_app_ws by done.
  simpl. rewrite Ha.
  change (a :: ws2) with ([a] ++ ws2).
  rewrite trimEnd_app_ws by done.
  by apply (trimEnd_snoc []).
Qed.

Lemma trimStart_blank s :
  trimStart s = [] → Forall (λ c, is_white_space c = true) s.
Proof.
  induction s as [|c s IH]; simpl; [constructor|].
  destruct (is_white_space c) eqn:Hc; [|discriminate].
  intros Hs. constructor; auto.
Qed.

Lemma trimStart_app_visible s t :
  trimStart s ≠ [] → trimStart (s ++ t) = trimStart s ++ t.
Proof.
  induction s as [|c s IH]; simpl; [done|].
  destruct (is_white_space c); [apply IH|done].
Qed.

(** White space around a text does not change what [trim] returns. *)
Lemma trim_app_ws ws1 s ws2 :
  Forall (λ c, is_white_space c = true) ws1 →
  Forall (λ c, is_white_space c = true) ws2 →
  trim (ws1 ++ s ++ ws2) = trim s.
Proof.
  intros H1 H2. unfold trim. rewrite trimStart_app_ws by done.
  destruct (trimStart s) as [|c r] eqn:Hs.
  - apply trimStart_blank in Hs.
    rewrite (trimStart_app_ws s ws2 Hs).
    pose proof (trim_blank ws2 H2) as Hb. unfold trim in Hb.
    replace (trimStart ws2) with (@nil N); [done|].
    symmetry. replace ws2 with (ws2 ++ []) by apply app_nil_r.
    by rewrite trimStart_app_ws.
  - rewrite trimStart_app_visible by (by rewrite Hs).
    rewrite Hs. by apply trimEnd_app_ws.
Qed.

Lemma trim_visible_ends s : visible_ends s = true → trim s = s.
Proof.
  unfold visible_ends.
  destruct s as [|a r]; [done|]. simpl head.
  destruct r as [|b r _] using rev_ind.
  - simpl. intros [Ha%negb_true_iff _]%andb_true_iff.
    by apply (trim_wrapped_single [] a []).
  - change (a :: r ++ [b]) with ((a :: r) ++ [b]). rewrite last_snoc.
    intros [Ha%negb_true_iff Hb%negb_true_iff]%andb_true_iff.
    pose proof (trim_wrapped [] a r b [] (Forall_nil_2 _) (Forall_nil_2 _)
                  Ha Hb) as Ht.
    simpl in Ht. by rewrite app_nil_r in Ht.
Qed.

(** *** The scan of [removeTrailingSemi] *)

Lemma scanBack_skip query m i n :
  m ≤ i →
  (∀ j, m ≤ j < i → query !! j = Some semi) →
  scanBack query i n = scanBack query m n.
Proof.
  induction i as [|i IH]; intros Hm Hrun.
  - by replace m with 0 by lia.
  - destruct (decide (m = S i)) as [->|Hne]; [done|].
    simpl. rewrite decide_True by (apply Hrun; lia).
    apply IH; [lia|]. intros j Hj. apply Hrun. lia.
Qed.

Lemma scanBack_stop query i n c :
  query !! i = Some c → c ≠ semi → scanBack query (S i) n = S i.
Proof.
  intros Hi Hc. simpl. rewrite decide_False; [done|].
  rewrite Hi. congruence.
Qed.

Lemma lookup_semis body k j :
  length body ≤ j < length body + k →
  (body ++ replicate k semi) !! j = Some semi.
Proof.
  intros Hj. rewrite lookup_app_r by lia.
  apply lookup_replicate_2. lia.
Qed.

(** A text whose last character before the run of [';'] is visible
    loses exactly that run. *)
Lemma removeTrailingSemi_strips pre c k :
  c ≠ semi →
  removeTrailingSemi (pre ++ [c] ++ replicate k semi) = pre ++ [c].
Proof.
  intros Hc. unfold removeTrailingSemi.
  rewrite app_assoc.
  assert (Hscan : ∀ n,
    scanBack ((pre ++ [c]) ++ replicate k semi)
             (length ((pre ++ [c]) ++ replicate k semi)) n
    = length (pre ++ [c])).
  { intros n. rewrite length_app, length_replicate.
    rewrite (scanBack_skip _ (length (pre ++ [c]))); [|lia|].
    - rewrite length_app. simpl length.
      replace (length pre + 1) with (S (length pre)) by lia.
      apply (scanBack_stop _ _ _ c); [|done].
      rewrite <- app_assoc. by apply list_lookup_middle.
    - intros j Hj. by apply lookup_semis. }
  rewrite Hscan. case_decide as Hlen.
  - by rewrite take_app_length.
  - destruct k as [|k]; [by rewrite app_nil_r|].
    exfalso.
    rewrite (length_app (pre ++ [c])), length_replicate in Hlen. lia.
Qed.

(** A text made of [';'] only comes back as it is: the loop finds no
    other character, [lastNonSemiIdx] keeps the value [query.length],
    and the final test takes that for "nothing to strip". *)
Lemma removeTrailingSemi_only_semis k :
  removeTrailingSemi (replicate k semi) = replicate k semi.
Proof.
  unfold removeTrailingSemi.
  rewrite (scanBack_skip _ 0); [|lia|].
  - simpl. by rewrite decide_False by (intros H; by apply H).
  - intros j Hj. rewrite length_replicate in Hj.
    apply lookup_replicate_2. lia.
Qed.

(** Every text is a run of [';'], possibly after a part that ends in
    another character. *)
Lemma semi_decomposition s :
  (∃ k, s = replicate k semi)
  ∨ (∃ pre c k, c ≠ semi ∧ s = pre ++ [c] ++ replicate k semi).
Proof.
  induction s as [|a s IH] using rev_ind.
  - left. by exists 0.
  - destruct (decide (a = semi)) as [->|Ha].
    + destruct IH as [[k ->]|(pre & c & k & Hc & ->)].
      * left. exists (S k).
        change [semi] with (replicate 1 semi).
        rewrite <- replicate_add. f_equal. lia.
      * right. exists pre, c, (S k). split; [done|].
        rewrite <- !app_assoc. do 2 f_equal.
        change [semi] with (replicate 1 semi).
        rewrite <- replicate_add. f_equal. lia.
    + right. exists s, a, 0. split; [done|]. done.
Qed.

Lemma dropLeadingSemis_run k s :
  dropLeadingSemis (replicate k semi ++ s) = dropLeadingSemis s.
Proof.
  induction k as [|k IH]; [done|].
  cbn [replicate app dropLeadingSemis]. by rewrite decide_True.
Qed.

Lemma dropTrailingSemis_strips pre c k :
  c ≠ semi →
  dropTrailingSemis (pre ++ [c] ++ replicate k semi) = pre ++ [c].
Proof.
  intros Hc. unfold dropTrailingSemis.
  rewrite app_assoc, reverse_app, reverse_replicate, dropLeadingSemis_run.
  rewrite reverse_app, reverse_singleton. simpl.
  rewrite decide_False by done.
  by rewrite reverse_cons, reverse_involutive.
Qed.

Lemma dropTrailingSemis_only_semis k :
  dropTrailingSemis (replicate k semi) = [].
Proof.
  unfold dropTrailingSemis. rewrite reverse_replicate.
  rewrite <- (app_nil_r (replicate k semi)).
  by rewrite dropLeadingSemis_run.
Qed.

(** [removeTrailingSemi] against the text without its final run of
    [';']: they agree except on a non-empty text made of [';'] only, which
    [removeTrailingSemi] returns whole. *)
Lemma removeTrailingSemi_vs_dropTrailingSemis s :
  removeTrailingSemi s
  = if decide (dropTrailingSemis s = []) then s else dropTrailingSemis s.
Proof.
  destruct (semi_decomposition s) as [[k ->]|(pre & c & k & Hc & ->)].
  - rewrite removeTrailingSemi_only_semis, dropTrailingSemis_only_semis.
    by rewrite decide_True.
  - rewrite removeTrailingSemi_strips, dropTrailingSemis_strips by done.
    rewrite decide_False; [done|]. by destruct pre.
Qed.

End string_facts.

(** C1: a query text made of [';'] only is returned as it is, so the
    result of stripping still ends in [';'] (the text [";;;"] comes back
    as [";;;"], where the maximal run of [';'] at its end is the whole
    text). *)
Theorem removeTrailingSemi_only_semicolons_kept :
  removeTrailingSemi (js ";;;") = js ";;;"
  ∧ endsWithSemi (removeTrailingSemi (js ";;;"))
  ∧ dropTrailingSemis (js ";;;") = [].
Proof.
  change (js ";;;") with (replicate 3 semi).
  rewrite removeTrailingSemi_only_semis. by repeat split.
Qed.

(** * Facts about the client *)

Section client_facts.

Context {Stream Values SettingVal ParamVal AbortSignal : Type}.
Context {LogLevel LoggerClass Logger LogWriter : Type}.
Context {ResultSet ConnInsertResult Exn URL World : Type}.

Abbreviation Client :=
  (ClickHouseClient (Stream := Stream) (Values := Values)
     (SettingVal := SettingVal) (ParamVal := ParamVal)
     (AbortSignal := AbortSignal) (LogWriter := LogWriter)
            (ResultSet := ResultSet)
     (ConnInsertResult := ConnInsertResult) (Exn := Exn) (URL := URL)
     (World := World)).

Implicit Types (this : Client).

(** Format names are not empty, so [||] and [??] choose the same format. *)
Lemma falsy_or_nullish_or format d : falsy_or format d = nullish_or format d.
Proof.
  destruct format as [[name Hname]|]; simpl; [|done].
  by destruct name.
Qed.

(** *** What each method does, call by call *)

Lemma exec_run this params s :
  let request :=
    {| rq_query := removeTrailingSemi (trim (ep_query params));
       rq_params := getQueryParams this (ep_base params) |} in
  exec this params s
  = ((conn_exec (connection this) request (world s)).1,
     {| trace := trace s ++ [ConnExec request];
        world := (conn_exec (connection this) request (world s)).2 |}).
Proof.
  simpl. unfold exec, call.
  by destruct (conn_exec _ _ _).
Qed.

Lemma query_run this params s :
  let format := nullish_or (qp_format params) JSON in
  let request :=
    {| rq_query := removeTrailingSemi (trim (qp_query params))
                   ++ (js " " ++ [LF] ++ js "FORMAT ") ++ format_name format;
       rq_params := getQueryParams this (qp_base params) |} in
  query this params s
  = match conn_query (connection this) request (world s) with
    | (Throw e, w) =>
        (Throw e, {| trace := trace s ++ [ConnQuery request]; world := w |})
    | (Return r, w) =>
        ((makeResultSet this (stream r) format (res_query_id r) w).1,
         {| trace := trace s ++ [ConnQuery request;
                                 MakeResultSet (stream r) format
                                               (res_query_id r)];
            world :=
              (makeResultSet this (stream r) format (res_query_id r) w).2 |})
    end.
Proof.
  simpl. unfold query, formatQuery, call, mbind, M_bind. simpl.
  destruct (conn_query _ _ _) as [[r|e] w]; simpl; [|done].
  destruct (makeResultSet _ _ _ _ _). simpl.
  by rewrite <- app_assoc.
Qed.

Lemma insert_run this params s :
  let format := nullish_or (ip_format params) JSONCompactEachRow in
  let values := ip_values params in
  let encoder := valuesEncoder this in
  match validateInsertValues encoder values format (world s) with
  | (Throw e, w) =>
      insert this params s
      = (Throw e, {| trace := trace s ++ [ValidateInsertValues values format];
                     world := w |})
  | (Return _, w) =>
      match encodeValues encoder values format w with
      | (Throw e, w') =>
          insert this params s
          = (Throw e, {| trace := trace s ++ [ValidateInsertValues values format;
                                             EncodeValues values format];
                         world := w' |})
      | (Return payload, w') =>
          let request :=
            {| ri_query := js "INSERT INTO " ++ trim (ip_table params)
                           ++ js " FORMAT " ++ format_name format;
               ri_values := payload;
               ri_params := getQueryParams this (ip_base params) |} in
          insert this params s
          = ((conn_insert (connection this) request w').1,
             {| trace := trace s ++ [ValidateInsertValues values format;
                                     EncodeValues values format;
                                     ConnInsert request];
                world := (conn_insert (connection this) request w').2 |})
      end
  end.
Proof.
  simpl. unfold insert, call, mbind, M_bind.
  rewrite falsy_or_nullish_or.
  destruct (validateInsertValues _ _ _ _) as [[[]|e] w]; simpl; [|done].
  destruct (encodeValues _ _ _ _) as [[payload|e] w']; simpl; [|by rewrite <- app_assoc].
  destruct (conn_insert _ _ _). simpl.
  by rewrite <- !app_assoc.
Qed.

Lemma ping_run this s :
  ping this s
  = ((conn_ping (connection this) (world s)).1,
     {| trace := trace s ++ [ConnPing];
        world := (conn_ping (connection this) (world s)).2 |}).
Proof. unfold ping, call. by destruct (conn_ping _ _). Qed.

Lemma getQueryParams_session_id this params :
  session_id (getQueryParams this params) = sessionId this.
Proof. reflexivity. Qed.

(** C2: a session identifier supplied in the per-call parameters does not
    reach the connection: the request descriptor of the call carries the
    session identifier the client was constructed with (none, when the
    configuration had none), whatever the per-call record holds. *)
Theorem exec_drops_per_call_session_id
    this settings qparams signal qid (sid : list N) text s :
  let params :=
    {| ep_base := {| bq_clickhouse_settings := settings;
                     bq_query_params := qparams;
                     bq_abort_signal := signal;
                     bq_query_id := qid;
                     bq_session_id := Some sid |};
       ep_query := text |} in
  ∃ request,
    trace (exec this params s).2 = trace s ++ [ConnExec request]
    ∧ session_id (rq_params request) = sessionId this.
Proof.
  intros params. rewrite exec_run. simpl. eexists. split; [done|]. done.
Qed.

(** C3: for the query text [";"] the text sent to the connection is
    [";"] followed by the FORMAT clause: the trailing [';'] is still
    there. *)
Theorem query_sends_lone_semicolon this base format s :
  let params :=
    {| qp_base := base; qp_query := js ";"; qp_format := format |} in
  ∃ rest,
    trace (query this params s).2
    = trace s
      ++ ConnQuery
           {| rq_query := js ";" ++ (js " " ++ [LF] ++ js "FORMAT ")
                          ++ format_name (nullish_or format JSON);
              rq_params := getQueryParams this base |}
      :: rest.
Proof.
  intros params. rewrite query_run. simpl.
  destruct (conn_query _ _ _) as [[r|e] w]; simpl.
  - eexists. reflexivity.
  - exists []. reflexivity.
Qed.

(** C4: the settings of a call are the connection-level settings
    overlaid with the call-level ones: on every key the call-level value
    is used when the call has one, and the connection-level value
    otherwise. *)
Theorem getQueryParams_settings_overlay this params k :
  clickhouse_settings (getQueryParams this params) !! k
  = match bq_clickhouse_settings params ≫= (.!! k) with
    | Some v => Some v
    | None => cp_clickhouse_settings (connectionParams this) !! k
    end.
Proof.
  unfold getQueryParams, spread. simpl. rewrite lookup_union.
  destruct (bq_clickhouse_settings params) as [overlay|]; simpl.
  - by destruct (overlay !! k),
         (cp_clickhouse_settings (connectionParams this) !! k).
  - rewrite lookup_empty.
    by destruct (cp_clickhouse_settings (connectionParams this) !! k).
Qed.

(** C5: [command] runs [exec]; an error of [exec] is the error of
    [command], and no stream is closed; when [exec] returns, the stream
    is closed next, whatever it holds, and [command] returns the query
    id alone (or throws what closing throws). *)
Theorem command_runs_exec_then_closes this params s :
  command this params s
  = match exec this params s with
    | (Throw e, s1) => (Throw e, s1)
    | (Return r, s1) =>
        let closed := closeStream this (stream r) (world s1) in
        (match closed.1 with
         | Return _ => Return {| cr_query_id := res_query_id r |}
         | Throw e => Throw e
         end,
         {| trace := trace s1 ++ [CloseStream (stream r)];
            world := closed.2 |})
    end.
Proof.
  unfold command, mbind, M_bind.
  destruct (exec this params s) as [[r|e] s1]; [|done].
  unfold call. simpl.
  by destruct (closeStream _ _ _) as [[[]|e] w].
Qed.

(** C6, as amended: when the host does not parse as a URL, constructing
    the client throws an [Error] and nothing has happened by then.  When
    the host parses to a URL whose protocol is neither [http:] nor
    [https:], constructing the client throws and the implementation is
    not called, so no connection is made; the log writer of the
    configuration has been made by then, outside the implementation:
    what is thrown is an [Error] when making it returned, and what making
    it threw otherwise. *)
Theorem constructor_rejects_host platform
    (config : ClickHouseClientConfigOptions (Stream := Stream)
                (Values := Values) (SettingVal := SettingVal)
                (ParamVal := ParamVal) (AbortSignal := AbortSignal)
                (LogLevel := LogLevel)
                (LoggerClass := LoggerClass) (LogWriter := LogWriter)
                (ResultSet := ResultSet)
                (ConnInsertResult := ConnInsertResult) (Exn := Exn)
                (URL := URL) (World := World))
    (s : State) :
  let host := default (js "http://localhost:8123") (cfg_host config) in
  (new_URL (Logger := Logger) platform host = None →
   ∃ message, constructor platform config s = (Throw (Error message), s))
  ∧ (∀ url,
       new_URL platform host = Some url →
       protocol platform url ≠ js "http:" →
       protocol platform url ≠ js "https:" →
       ∃ e,
         constructor platform config s
         = (Throw e,
            {| trace := trace s;
               world := (newLogWriter platform config (world s)).2 |})
         ∧ match (newLogWriter platform config (world s)).1 with
           | Return _ => ∃ message, e = Error message
           | Throw e' => e = e'
           end).
Proof.
  intros host. split.
  - intros Hbad. eexists.
    unfold constructor, mbind, M_bind, run, getConnectionParams, createUrl.
    fold host. rewrite Hbad. by destruct s.
  - intros url Hurl Hhttp Hhttps.
    unfold constructor, mbind, M_bind, run, getConnectionParams, createUrl.
    fold host. rewrite Hurl.
    destruct (newLogWriter platform config (world s)) as [[lw|e] w]; simpl.
    + unfold validateConnectionParams, lift. simpl.
      rewrite decide_True by done. eauto.
    + eauto.
Qed.

(** C7: [insert] validates the values against the effective format (the
    caller's, or [JSONCompactEachRow]) before anything else: when the
    validation throws, [insert] throws the same and nothing was encoded
    or sent; when validation and encoding return, the statement sent is
    [INSERT INTO <table> FORMAT <format>]. *)
Theorem insert_validates_before_sending this params s :
  let format := nullish_or (ip_format params) JSONCompactEachRow in
  let values := ip_values params in
  let encoder := valuesEncoder this in
  (∀ e w,
     validateInsertValues encoder values format (world s) = (Throw e, w) →
     insert this params s
     = (Throw e, {| trace := trace s ++ [ValidateInsertValues values format];
                    world := w |}))
  ∧ (∀ w payload w',
       validateInsertValues encoder values format (world s) = (Return (), w) →
       encodeValues encoder values format w = (Return payload, w') →
       let request :=
         {| ri_query := js "INSERT INTO " ++ trim (ip_table params)
                        ++ js " FORMAT " ++ format_name format;
            ri_values := payload;
            ri_params := getQueryParams this (ip_base params) |} in
       insert this params s
       = ((conn_insert (connection this) request w').1,
          {| trace := trace s ++ [ValidateInsertValues values format;
                                  EncodeValues values format;
                                  ConnInsert request];
             world := (conn_insert (connection this) request w').2 |})).
Proof.
  intros format values encoder.
  pose proof (insert_run this params s) as Hrun. simpl in Hrun.
  fold format values encoder in Hrun.
  split.
  - intros e w Hv. by rewrite Hv in Hrun.
  - intros w payload w' Hv He. rewrite Hv, He in Hrun. exact Hrun.
Qed.

(** C8: for the query text [";"] the text sent by [exec] is [";"]: the
    trailing [';'] is still there. *)
Theorem exec_sends_lone_semicolon this base s :
  trace (exec this {| ep_base := base; ep_query := js ";" |} s).2
  = trace s ++ [ConnExec {| rq_query := js ";";
                            rq_params := getQueryParams this base |}].
Proof. by rewrite exec_run. Qed.

(** C9: with a connection whose ping follows the specification, the
    ping of the client always returns: a success when the transport
    request went through, and a failure value holding the error when it
    did not. *)
Theorem ping_never_throws this request s :
  conn_ping (connection this) = spec_connection_ping request →
  ∃ s',
    ping this s
    = (Return match (request (world s)).1 with
              | Return _ => PingSuccess
              | Throw e => PingFailure e
              end, s').
Proof.
  intros Hping. unfold ping, call. rewrite Hping.
  unfold spec_connection_ping.
  destruct (request (world s)) as [[[]|e] w]; simpl; by eexists.
Qed.

(** C10: white space before and after the table name does not change
    what [insert] does; a table name that starts and ends with a visible
    character goes into the statement as it is; and that statement is
    sent, for the name with white space around it as for the name alone,
    whenever the validation and the encoding of the values return. *)
Theorem insert_table_whitespace this base values format ws1 ws2 table s :
  Forall (λ c, is_white_space c = true) ws1 →
  Forall (λ c, is_white_space c = true) ws2 →
  let fmt := nullish_or format JSONCompactEachRow in
  let padded := {| ip_base := base; ip_table := ws1 ++ table ++ ws2;
                   ip_values := values; ip_format := format |} in
  let plain := {| ip_base := base; ip_table := table;
                  ip_values := values; ip_format := format |} in
  insert this padded s = insert this plain s
  ∧ (visible_ends table = true →
     ∀ request,
       ConnInsert request
         ∈ drop (length (trace s)) (trace (insert this plain s).2) →
       ri_query request
       = js "INSERT INTO " ++ table ++ js " FORMAT " ++ format_name fmt)
  ∧ (visible_ends table = true →
     ∀ w payload w',
       validateInsertValues (valuesEncoder this) values fmt (world s)
       = (Return (), w) →
       encodeValues (valuesEncoder this) values fmt w = (Return payload, w') →
       let request :=
         {| ri_query := js "INSERT INTO " ++ table ++ js " FORMAT "
                        ++ format_name fmt;
            ri_values := payload;
            ri_params := getQueryParams this base |} in
       insert this padded s
       = ((conn_insert (connection this) request w').1,
          {| trace := trace s ++ [ValidateInsertValues values fmt;
                                  EncodeValues values fmt;
                                  ConnInsert request];
             world := (conn_insert (connection this) request w').2 |})).
Proof.
  intros Hws1 Hws2 fmt padded plain.
  assert (Hsame : insert this padded s = insert this plain s).
  { unfold insert, padded, plain. simpl. by rewrite trim_app_ws. }
  pose proof (insert_run this plain s) as Hrun.
  simpl in Hrun. fold fmt in Hrun.
  split; [exact Hsame|]. split.
  - intros Hvis request.
    rewrite (trim_visible_ends table Hvis) in Hrun.
    destruct (validateInsertValues _ _ _ _) as [[[]|e] w];
      [destruct (encodeValues _ _ _ _) as [[payload|e] w']|];
      rewrite Hrun; simpl; rewrite drop_app_length;
      intros Hin; repeat (apply elem_of_cons in Hin as [Hin|Hin]);
      try discriminate; try (by apply elem_of_nil in Hin).
    by injection Hin as ->.
  - intros Hvis w payload w' Hv He.
    rewrite Hsame.
    rewrite (trim_visible_ends table Hvis) in Hrun.
    by rewrite Hv, He in Hrun.
Qed.

End client_facts.

(** * The theorems at concrete inputs *)

Example removeTrailingSemi_select_1 :
  removeTrailingSemi (js "SELECT 1;;;") = js "SELECT 1".
Proof. reflexivity. Qed.

Example removeTrailingSemi_mid_text :
  removeTrailingSemi (js "SELECT ';' AS x") = js "SELECT ';' AS x".
Proof. reflexivity. Qed.

Example formatQuery_select_1 :
  formatQuery (js "  SELECT 1; ") JSON
  = js "SELECT 1 " ++ [LF] ++ js "FORMAT JSON".
Proof. reflexivity. Qed.

Example sample_constructor_default_host :
  ∃ client p,
    constructor sample_platform (sample_config None) sample_state
    = (Return client, {| trace := [MakeConnection p]; world := 0 |})
    ∧ cp_url p = js "http:".
Proof. vm_compute. eexists _, _. split; reflexivity. Qed.

Example sample_exec_session_id :
  trace (exec sample_client
              {| ep_base := sample_base; ep_query := js "SELECT 1" |}
              sample_state).2
  = [ConnExec {| rq_query := js "SELECT 1";
                 rq_params := {| clickhouse_settings := ∅;
                                 query_params := None;
                                 abort_signal := None;
                                 query_id := None;
                                 session_id := None |} |}].
Proof. reflexivity. Qed.

Lemma constructor_rejects_host_witness :
  (sample_new_URL (js "localhost") = None
   ∧ ∃ message,
       constructor sample_platform (sample_config (Some (js "localhost")))
                   sample_state
       = (Throw (Error message), sample_state))
  ∧ (sample_new_URL (js "ftp://example.com") = Some (js "ftp:")
     ∧ ∃ message,
         constructor sample_platform
                     (sample_config (Some (js "ftp://example.com")))
                     sample_state
         = (Throw (Error message), sample_state)).
Proof.
  split.
  - split; [reflexivity|].
    exact (proj1 (constructor_rejects_host sample_platform
                    (sample_config (Some (js "localhost"))) sample_state)
                 eq_refl).
  - split; [reflexivity|].
    destruct (proj2 (constructor_rejects_host sample_platform
                       (sample_config (Some (js "ftp://example.com")))
                       sample_state)
                    (js "ftp:") eq_refl)
      as (e & Hrun & [message ->]).
    + discriminate.
    + discriminate.
    + exists message. exact Hrun.
Defined.

(** The configuration names a logger class whose constructor throws and
    a host with the protocol [ftp:]: what the constructor throws is what
    the logger class threw, not an [Error] of the client. *)
Lemma constructor_rejects_host_counterexample :
  (∃ url, sample_new_URL (js "ftp://example.com") = Some url
          ∧ url ≠ js "http:" ∧ url ≠ js "https:")
  ∧ ¬ ∃ message s',
        constructor sample_platform
                    (sample_config_logging (Some (js "ftp://example.com"))
                                           false)
                    sample_state
        = (Throw (Error message), s').
Proof.
  split.
  - exists (js "ftp:"). repeat split; discriminate.
  - intros (message & s' & Hrun). vm_compute in Hrun. discriminate.
Qed.

Lemma insert_validates_before_sending_witness :
  insert sample_client (sample_insert (js "t") []) sample_state
  = (Throw (Thrown (js "no values")),
     {| trace := [ValidateInsertValues [] JSONCompactEachRow]; world := 0 |})
  ∧ insert sample_client (sample_insert (js "t") [1]) sample_state
    = (Return (js "q3"),
       {| trace := [ValidateInsertValues [1] JSONCompactEachRow;
                    EncodeValues [1] JSONCompactEachRow;
                    ConnInsert
                      {| ri_query := js "INSERT INTO t FORMAT JSONCompactEachRow";
                         ri_values := inl (js "[1]");
                         ri_params := getQueryParams sample_client sample_base |}];
          world := 1 |}).
Proof.
  split.
  - exact (proj1 (insert_validates_before_sending
                    sample_client (sample_insert (js "t") []) sample_state)
                 _ _ eq_refl).
  - exact (proj2 (insert_validates_before_sending
                    sample_client (sample_insert (js "t") [1]) sample_state)
                 _ _ _ eq_refl eq_refl).
Defined.

Lemma ping_never_throws_witness :
  ∃ s', ping sample_client sample_state
        = (Return (PingFailure (Thrown (js "ECONNREFUSED"))), s').
Proof.
  exact (ping_never_throws sample_client _ sample_state eq_refl).
Defined.

Lemma insert_table_whitespace_witness :
  insert sample_client (sample_insert (js "  t ") [1]) sample_state
  = insert sample_client (sample_insert (js "t") [1]) sample_state
  ∧ (∀ request,
       ConnInsert request
         ∈ trace (insert sample_client (sample_insert (js "t") [1])
                         sample_state).2 →
       ri_query request = js "INSERT INTO t FORMAT JSONCompactEachRow")
  ∧ insert sample_client (sample_insert (js "  t ") [1]) sample_state
    = (Return (js "q3"),
       {| trace := [ValidateInsertValues [1] JSONCompactEachRow;
                    EncodeValues [1] JSONCompactEachRow;
                    ConnInsert
                      {| ri_query := js "INSERT INTO t FORMAT JSONCompactEachRow";
                         ri_values := inl (js "[1]");
                         ri_params := getQueryParams sample_client sample_base |}];
          world := 1 |}).
Proof.
  destruct (insert_table_whitespace sample_client sample_base [1] None
              (js "  ") (js " ") (js "t") sample_state)
    as (Hsame & Hverbatim & Hsent).
  - by repeat constructor.
  - by repeat constructor.
  - split; [exact Hsame|]. split; [exact (Hverbatim eq_refl)|].
    exact (Hsent eq_refl 0 (inl (js "[1]")) 0 eq_refl eq_refl).
Defined.

(** * More about the string helpers *)

Section string_more_facts.

Implicit Types (s q ws : list N) (c : N).

Lemma last_run_semi s k : last (s ++ replicate (S k) semi) = Some semi.
Proof. by rewrite replicate_S_end, app_assoc, last_snoc. Qed.

(** [removeTrailingSemi] only ever removes [';'] characters, and only at
    the end: the text is the result followed by a run of [';']. *)
Theorem removeTrailingSemi_removes_semis_only s :
  ∃ k, s = removeTrailingSemi s ++ replicate k semi.
Proof.
  destruct (semi_decomposition s) as [[k ->]|(pre & c & k & Hc & ->)].
  - exists 0. by rewrite removeTrailingSemi_only_semis, app_nil_r.
  - exists k. rewrite removeTrailingSemi_strips by done.
    by rewrite <- app_assoc.
Qed.

(** Stripping twice is stripping once. *)
Theorem removeTrailingSemi_idempotent s :
  removeTrailingSemi (removeTrailingSemi s) = removeTrailingSemi s.
Proof.
  destruct (semi_decomposition s) as [[k ->]|(pre & c & k & Hc & ->)].
  - by rewrite !removeTrailingSemi_only_semis.
  - rewrite removeTrailingSemi_strips by done.
    pose proof (removeTrailingSemi_strips pre c 0 Hc) as H0.
    simpl in H0. exact H0.
Qed.

(** On a text that holds a character other than [';'], the result is the
    text without its final run of [';']: it is not empty and does not
    end in [';']. *)
Theorem removeTrailingSemi_with_other_character s c :
  c ∈ s → c ≠ semi →
  removeTrailingSemi s = dropTrailingSemis s
  ∧ removeTrailingSemi s ≠ []
  ∧ last (removeTrailingSemi s) ≠ Some semi.
Proof.
  intros Hin Hc.
  destruct (semi_decomposition s) as [[k ->]|(pre & d & k & Hd & ->)].
  - by apply elem_of_replicate_inv in Hin.
  - rewrite removeTrailingSemi_strips, dropTrailingSemis_strips by done.
    split; [done|]. split; [by destruct pre|].
    rewrite last_snoc. congruence.
Qed.

(** A text that does not end in [';'], the empty text included, is
    returned as it is. *)
Theorem removeTrailingSemi_without_trailing_semi s :
  last s ≠ Some semi → removeTrailingSemi s = s.
Proof.
  intros Hlast.
  destruct (semi_decomposition s) as [[k ->]|(pre & c & k & Hc & ->)].
  - apply removeTrailingSemi_only_semis.
  - destruct k as [|k].
    + pose proof (removeTrailingSemi_strips pre c 0 Hc) as H0.
      simpl in *. exact H0.
    + exfalso. apply Hlast. rewrite app_assoc. apply last_run_semi.
Qed.

Lemma trimStart_visible_last q c :
  last q = Some c → is_white_space c = false →
  ∃ pre, trimStart q = pre ++ [c].
Proof.
  intros [q' ->]%last_Some Hc.
  destruct (trimStart q') as [|a r] eqn:Hq'.
  - exists []. apply trimStart_blank in Hq'.
    rewrite trimStart_app_ws by done. simpl. by rewrite Hc.
  - exists (a :: r). rewrite trimStart_app_visible by (by rewrite Hq').
    by rewrite Hq'.
Qed.

Lemma trim_visible_last q c :
  last q = Some c → is_white_space c = false → trim q = trimStart q.
Proof.
  intros Hlast Hc.
  destruct (trimStart_visible_last q c Hlast Hc) as [pre Hpre].
  unfold trim. rewrite Hpre. by apply trimEnd_snoc.
Qed.

(** Terminators after a text that ends in a visible character, and white
    space after them, are dropped together: what is left is the trimmed
    text. *)
Lemma strip_trim_terminated q c k ws :
  last q = Some c → is_white_space c = false → c ≠ semi →
  Forall (λ c, is_white_space c = true) ws →
  removeTrailingSemi (trim (q ++ replicate k semi ++ ws)) = trim q.
Proof.
  intros Hlast Hvis Hc Hws.
  rewrite app_assoc.
  pose proof (trim_app_ws [] (q ++ replicate k semi) ws (Forall_nil_2 _) Hws)
    as Hout.
  simpl in Hout. rewrite Hout. clear Hout.
  rewrite (trim_visible_last q c Hlast Hvis).
  destruct (trimStart_visible_last q c Hlast Hvis) as [pre Hpre].
  assert (Htrim : trim (q ++ replicate k semi) = pre ++ [c] ++ replicate k semi).
  { unfold trim. rewrite trimStart_app_visible by (rewrite Hpre; by destruct pre).
    rewrite Hpre. destruct k as [|k].
    - simpl. rewrite app_nil_r. by apply trimEnd_snoc.
    - rewrite replicate_S_end, !app_assoc.
      rewrite trimEnd_snoc by done. by rewrite <- !app_assoc. }
  rewrite Htrim, Hpre. by apply removeTrailingSemi_strips.
Qed.

(** [formatQuery] does not depend on terminators at the end of the query
    text nor on the white space around it: the FORMAT clause follows the
    trimmed text. *)
Theorem formatQuery_terminated q c k ws format :
  last q = Some c → is_white_space c = false → c ≠ semi →
  Forall (λ c, is_white_space c = true) ws →
  formatQuery (q ++ replicate k semi ++ ws) format
  = trim q ++ (js " " ++ [LF] ++ js "FORMAT ") ++ format_name format.
Proof.
  intros Hlast Hvis Hc Hws. unfold formatQuery.
  by rewrite (strip_trim_terminated q c k ws).
Qed.

(** White space between the text and its terminators is not removed: the
    query is trimmed before the terminators are stripped, not after. *)
Theorem formatQuery_keeps_inner_white_space core ws w k format :
  visible_ends core = true →
  Forall (λ c, is_white_space c = true) (ws ++ [w]) →
  formatQuery (core ++ (ws ++ [w]) ++ replicate (S k) semi) format
  = (core ++ ws ++ [w])
    ++ (js " " ++ [LF] ++ js "FORMAT ") ++ format_name format.
Proof.
  intros Hcore Hws. unfold formatQuery.
  assert (Hw : w ≠ semi).
  { apply Forall_app in Hws as [_ Hw].
    inversion_clear Hw as [|? ? Hw' _].
    intros ->. by vm_compute in Hw'. }
  assert (Hends : visible_ends (core ++ (ws ++ [w]) ++ replicate (S k) semi)
                  = true).
  { unfold visible_ends in *.
    destruct core as [|a core]; [done|]. simpl head in *.
    rewrite app_assoc. change (a :: core ++ ws ++ [w])
      with ((a :: core) ++ ws ++ [w]).
    rewrite last_run_semi.
    destruct (last (a :: core)); [|done].
    apply andb_true_iff in Hcore as [Ha _].
    cbn [head app]. by rewrite Ha. }
  rewrite (trim_visible_ends _ Hends).
  replace (core ++ (ws ++ [w]) ++ replicate (S k) semi)
    with ((core ++ ws) ++ [w] ++ replicate (S k) semi)
    by (by rewrite <- !app_assoc).
  rewrite removeTrailingSemi_strips by done.
  by rewrite <- !app_assoc.
Qed.

End string_more_facts.

(** * More about the client *)

Section client_more_facts.

Context {Stream Values SettingVal ParamVal AbortSignal : Type}.
Context {LogLevel LoggerClass Logger LogWriter : Type}.
Context {ResultSet ConnInsertResult Exn URL World : Type}.

Implicit Types
  (this : ClickHouseClient (Stream := Stream) (Values := Values)
            (SettingVal := SettingVal) (ParamVal := ParamVal)
            (AbortSignal := AbortSignal) (LogWriter := LogWriter)
            (ResultSet := ResultSet)
            (ConnInsertResult := ConnInsertResult) (Exn := Exn) (URL := URL)
            (World := World))
  (config : ClickHouseClientConfigOptions (Stream := Stream)
              (Values := Values) (SettingVal := SettingVal)
              (ParamVal := ParamVal) (AbortSignal := AbortSignal)
              (LogLevel := LogLevel)
              (LoggerClass := LoggerClass) (LogWriter := LogWriter)
              (ResultSet := ResultSet)
              (ConnInsertResult := ConnInsertResult) (Exn := Exn)
              (URL := URL) (World := World))
  (platform : Platform (LogLevel := LogLevel)
                (LoggerClass := LoggerClass) (Logger := Logger)
                (LogWriter := LogWriter) (Exn := Exn) (URL := URL)
                (World := World)).

(** [exec] on a text that ends in a visible character other than [';'],
    followed by any number of [';'] and then white space: the trimmed
    text is sent, without a FORMAT clause, in one call to the connection,
    whose outcome (the stream, or the error) is the outcome of [exec]. *)
Theorem exec_terminated this base q c k ws s :
  last q = Some c → is_white_space c = false → c ≠ semi →
  Forall (λ c, is_white_space c = true) ws →
  let request :=
    {| rq_query := trim q; rq_params := getQueryParams this base |} in
  exec this {| ep_base := base; ep_query := q ++ replicate k semi ++ ws |} s
  = ((conn_exec (connection this) request (world s)).1,
     {| trace := trace s ++ [ConnExec request];
        world := (conn_exec (connection this) request (world s)).2 |}).
Proof.
  intros Hlast Hvis Hc Hws request. rewrite exec_run. simpl.
  by rewrite (strip_trim_terminated q c k ws).
Qed.

(** [query] on such a text: the trimmed text followed by the FORMAT
    clause of the effective format is sent; an error of the connection is
    the error of [query] and no result set is made; otherwise the result
    set is made from the returned stream, the same format and the
    returned query id, and the stream is not closed. *)
Theorem query_terminated this base format q c k ws s :
  last q = Some c → is_white_space c = false → c ≠ semi →
  Forall (λ c, is_white_space c = true) ws →
  let fmt := nullish_or format JSON in
  let request :=
    {| rq_query := trim q ++ (js " " ++ [LF] ++ js "FORMAT ")
                   ++ format_name fmt;
       rq_params := getQueryParams this base |} in
  query this {| qp_base := base; qp_query := q ++ replicate k semi ++ ws;
                qp_format := format |} s
  = match conn_query (connection this) request (world s) with
    | (Throw e, w) =>
        (Throw e, {| trace := trace s ++ [ConnQuery request]; world := w |})
    | (Return r, w) =>
        ((makeResultSet this (stream r) fmt (res_query_id r) w).1,
         {| trace := trace s ++ [ConnQuery request;
                                 MakeResultSet (stream r) fmt (res_query_id r)];
            world := (makeResultSet this (stream r) fmt (res_query_id r) w).2 |})
    end.
Proof.
  intros Hlast Hvis Hc Hws fmt request. rewrite query_run. simpl.
  by rewrite (strip_trim_terminated q c k ws).
Qed.

(** When the encoding of the values throws, after a validation that
    passed, [insert] throws the same and the connection is not called. *)
Theorem insert_encoding_error this params s w e w' :
  let format := nullish_or (ip_format params) JSONCompactEachRow in
  let values := ip_values params in
  validateInsertValues (valuesEncoder this) values format (world s)
  = (Return (), w) →
  encodeValues (valuesEncoder this) values format w = (Throw e, w') →
  insert this params s
  = (Throw e, {| trace := trace s ++ [ValidateInsertValues values format;
                                      EncodeValues values format];
                 world := w' |}).
Proof.
  intros format values Hv He.
  pose proof (insert_run this params s) as Hrun. simpl in Hrun.
  fold format values in Hrun. by rewrite Hv, He in Hrun.
Qed.

(** [insert] makes at most three calls, to the validation, to the
    encoding and to the insert of the connection, all with the values
    and the effective format of the call: it closes no stream and makes
    no result set. *)
Theorem insert_calls this params s :
  let format := nullish_or (ip_format params) JSONCompactEachRow in
  let values := ip_values params in
  ∃ events,
    trace (insert this params s).2 = trace s ++ events
    ∧ length events ≤ 3
    ∧ Forall (λ event,
                event = ValidateInsertValues values format
                ∨ event = EncodeValues values format
                ∨ ∃ payload,
                    event = ConnInsert
                      {| ri_query := js "INSERT INTO " ++ trim (ip_table params)
                                     ++ js " FORMAT " ++ format_name format;
                         ri_values := payload;
                         ri_params := getQueryParams this (ip_base params) |})
             events.
Proof.
  intros format values.
  pose proof (insert_run this params s) as Hrun. simpl in Hrun.
  fold format values in Hrun.
  destruct (validateInsertValues _ _ _ _) as [[[]|e] w];
    [destruct (encodeValues _ _ _ _) as [[payload|e] w']|];
    rewrite Hrun; simpl; eexists; (split; [reflexivity|]);
    (split; [simpl; lia|]);
    repeat (apply Forall_cons_2 || apply Forall_nil_2); eauto 6.
Qed.

(** A table name made of white space only, or empty, is not rejected by
    the client: the statement sent has no table name. *)
Theorem insert_blank_table this base table values format s w payload w' :
  Forall (λ c, is_white_space c = true) table →
  let fmt := nullish_or format JSONCompactEachRow in
  validateInsertValues (valuesEncoder this) values fmt (world s)
  = (Return (), w) →
  encodeValues (valuesEncoder this) values fmt w = (Return payload, w') →
  ∃ result s',
    insert this {| ip_base := base; ip_table := table; ip_values := values;
                   ip_format := format |} s = (result, s')
    ∧ last (trace s')
      = Some (ConnInsert
                {| ri_query := js "INSERT INTO " ++ js " FORMAT "
                               ++ format_name fmt;
                   ri_values := payload;
                   ri_params := getQueryParams this base |}).
Proof.
  intros Hblank fmt Hv He.
  pose proof (insert_run this {| ip_base := base; ip_table := table;
                                 ip_values := values;
                                 ip_format := format |} s) as Hrun.
  simpl in Hrun. fold fmt in Hrun. rewrite Hv, He in Hrun.
  rewrite (trim_blank table Hblank) in Hrun. simpl in Hrun.
  eexists _, _. split; [exact Hrun|]. simpl.
  by rewrite last_app.
Qed.

(** The client's [ping] does not catch: when the ping of the connection
    throws, the client's ping throws the same error. *)
Theorem ping_rethrows this s e w :
  conn_ping (connection this) (world s) = (Throw e, w) →
  ping this s = (Throw e, {| trace := trace s ++ [ConnPing]; world := w |}).
Proof. intros Hping. by rewrite ping_run, Hping. Qed.

(** [command] on a text that ends in a visible character other than
    [';'], followed by any number of [';'] and then white space: the
    trimmed text is sent through the [exec] of the connection; when that
    returns, the returned stream is closed and the query id is the
    result, unless closing throws. *)
Theorem command_terminated this base q c k ws s :
  last q = Some c → is_white_space c = false → c ≠ semi →
  Forall (λ c, is_white_space c = true) ws →
  let request :=
    {| rq_query := trim q; rq_params := getQueryParams this base |} in
  command this {| ep_base := base; ep_query := q ++ replicate k semi ++ ws |} s
  = match conn_exec (connection this) request (world s) with
    | (Throw e, w) =>
        (Throw e, {| trace := trace s ++ [ConnExec request]; world := w |})
    | (Return r, w) =>
        (match (closeStream this (stream r) w).1 with
         | Return _ => Return {| cr_query_id := res_query_id r |}
         | Throw e => Throw e
         end,
         {| trace := trace s ++ [ConnExec request; CloseStream (stream r)];
            world := (closeStream this (stream r) w).2 |})
    end.
Proof.
  intros Hlast Hvis Hc Hws request.
  unfold command, mbind, M_bind.
  rewrite exec_run. simpl.
  rewrite (strip_trim_terminated q c k ws) by done.
  fold request.
  destruct (conn_exec _ _ _) as [[r|e] w]; simpl; [|done].
  unfold call. simpl.
  destruct (closeStream _ _ _) as [[[]|e] w']; simpl;
    by rewrite <- app_assoc.
Qed.

End client_more_facts.

(** * Construction of the client *)

Section construction_facts.

Context {Stream Values SettingVal ParamVal AbortSignal : Type}.
Context {LogLevel LoggerClass Logger LogWriter : Type}.
Context {ResultSet ConnInsertResult Exn URL World : Type}.

Implicit Types
  (config : ClickHouseClientConfigOptions (Stream := Stream)
              (Values := Values) (SettingVal := SettingVal)
              (ParamVal := ParamVal) (AbortSignal := AbortSignal)
              (LogLevel := LogLevel)
              (LoggerClass := LoggerClass) (LogWriter := LogWriter)
              (ResultSet := ResultSet)
              (ConnInsertResult := ConnInsertResult) (Exn := Exn)
              (URL := URL) (World := World))
  (platform : Platform (LogLevel := LogLevel)
                (LoggerClass := LoggerClass) (Logger := Logger)
                (LogWriter := LogWriter) (Exn := Exn) (URL := URL)
                (World := World))
  (impl : Impl (Stream := Stream) (Values := Values)
            (SettingVal := SettingVal) (ParamVal := ParamVal)
            (AbortSignal := AbortSignal) (LogWriter := LogWriter)
            (ResultSet := ResultSet)
            (ConnInsertResult := ConnInsertResult) (Exn := Exn) (URL := URL)
            (World := World)).

Lemma lookup_spread (a : gmap (list N) SettingVal) b k :
  spread a b !! k
  = match b ≫= (.!! k) with
    | Some v => Some v
    | None => a !! k
    end.
Proof.
  unfold spread. rewrite lookup_union.
  destruct b as [b|]; simpl.
  - by destruct (b !! k), (a !! k).
  - rewrite lookup_empty. by destruct (a !! k).
Qed.

(** With every option left out, and whatever the implementation, the
    resolved parameters are the defaults: the URL of
    [http://localhost:8123], a request timeout of [300_000], [Infinity]
    as the bound on the open connections, responses decompressed and
    requests not compressed, user and database [default], an empty
    password, no settings, and the log writer made on the default logger
    without a level. *)
Theorem getConnectionParams_defaults platform impl session url logger w1
    logWriter w2 w :
  new_URL platform (js "http://localhost:8123") = Some url →
  new_DefaultLogger platform w = (Return logger, w1) →
  new_LogWriter platform logger None w1 = (Return logWriter, w2) →
  getConnectionParams (LogLevel := LogLevel) (LoggerClass := LoggerClass)
    platform
    {| cfg_impl := impl; cfg_host := None; cfg_request_timeout := None;
       cfg_max_open_connections := None; cfg_compression := None;
       cfg_username := None; cfg_password := None; cfg_application := None;
       cfg_database := None; cfg_clickhouse_settings := None;
       cfg_log := None; cfg_session_id := session |}
    w
  = (Return
       {| cp_application_id := None;
          cp_url := url;
          cp_request_timeout := 300000%float;
          cp_max_open_connections := infinity;
          cp_compression :=
            {| decompress_response := true; compress_request := false |};
          cp_username := js "default";
          cp_password := [];
          cp_database := js "default";
          cp_clickhouse_settings := ∅;
          cp_logWriter := logWriter |},
     w2).
Proof.
  intros Hurl Hlogger Hwriter.
  unfold getConnectionParams, createUrl, newLogWriter.
  cbn [cfg_host cfg_log default mbind option_bind].
  by rewrite Hurl, Hlogger, Hwriter.
Qed.

(** When the parameters of the configuration resolve, to a URL whose
    protocol is [http:] or [https:], the constructor makes exactly one
    call into the implementation, [make_connection] on the resolved
    parameters; what that call throws, the constructor throws; the
    connection it returns is the connection of the client, whose session
    id is the one of the configuration.  When resolving the parameters
    throws, the constructor throws the same and calls nothing. *)
Theorem constructor_connects platform config s :
  match getConnectionParams platform config (world s) with
  | (Throw e, w1) =>
      constructor platform config s
      = (Throw e, {| trace := trace s; world := w1 |})
  | (Return p, w1) =>
      protocol platform (cp_url p) = js "http:"
      ∨ protocol platform (cp_url p) = js "https:" →
      constructor platform config s
      = match make_connection (cfg_impl config) p w1 with
        | (Throw e, w) =>
            (Throw e, {| trace := trace s ++ [MakeConnection p]; world := w |})
        | (Return c, w) =>
            (Return {| connectionParams := p;
                       connection := c;
                       makeResultSet := make_result_set (cfg_impl config);
                       valuesEncoder := values_encoder (cfg_impl config);
                       closeStream := close_stream (cfg_impl config);
                       sessionId := cfg_session_id config |},
             {| trace := trace s ++ [MakeConnection p]; world := w |})
        end
  end.
Proof.
  unfold constructor, mbind, M_bind, run.
  destruct (getConnectionParams platform config (world s)) as [[p|e] w1];
    [|done].
  intros Hp. unfold lift, validateConnectionParams. simpl.
  rewrite decide_False by (intros [H1 H2]; destruct Hp; done).
  unfold call. simpl.
  by destruct (make_connection _ _ _) as [[c|e] w].
Qed.

(** Every client the constructor returns has a URL that the host parsed
    to and whose protocol is [http:] or [https:]; making its connection
    was the only call of the construction; its session id is the one of
    the configuration. *)
Theorem constructed_client platform config s client s' :
  constructor platform config s = (Return client, s') →
  new_URL platform (default (js "http://localhost:8123") (cfg_host config))
  = Some (cp_url (connectionParams client))
  ∧ (protocol platform (cp_url (connectionParams client)) = js "http:"
     ∨ protocol platform (cp_url (connectionParams client)) = js "https:")
  ∧ trace s' = trace s ++ [MakeConnection (connectionParams client)]
  ∧ sessionId client = cfg_session_id config
  ∧ cp_clickhouse_settings (connectionParams client)
    = default ∅ (cfg_clickhouse_settings config).
Proof.
  unfold constructor, mbind, M_bind, run, lift, getConnectionParams,
    createUrl.
  destruct (new_URL _ _) as [url|] eqn:Hurl; [|done].
  destruct (newLogWriter _ _ _) as [[logWriter|e] w1]; [|done]. simpl.
  unfold validateConnectionParams. simpl.
  case_decide as Hp; [done|]. unfold call. simpl.
  destruct (make_connection _ _ _) as [[c|e] w]; [|done].
  intros [= <- <-]. simpl. repeat split.
  destruct (decide (protocol platform url = js "http:")) as [|H1]; [by left|].
  destruct (decide (protocol platform url = js "https:")) as [|H2]; [by right|].
  by destruct Hp.
Qed.

(** The settings of a call made on a constructed client: key by key,
    the value of the call when it has one, else the value of the
    configuration when it has one, else none. *)
Theorem constructed_client_settings platform config s client s' params k :
  constructor platform config s = (Return client, s') →
  clickhouse_settings (getQueryParams client params) !! k
  = match bq_clickhouse_settings params ≫= (.!! k) with
    | Some v => Some v
    | None => cfg_clickhouse_settings config ≫= (.!! k)
    end.
Proof.
  intros Hnew.
  assert (Hset : cp_clickhouse_settings (connectionParams client)
                 = default ∅ (cfg_clickhouse_settings config)).
  { revert Hnew.
    unfold constructor, mbind, M_bind, run, lift, getConnectionParams,
      createUrl.
    destruct (new_URL _ _) as [url|]; [|done].
    destruct (newLogWriter _ _ _) as [[logWriter|e] w1]; [|done]. simpl.
    unfold validateConnectionParams. simpl.
    case_decide; [done|]. unfold call. simpl.
    destruct (make_connection _ _ _) as [[conn|e] w]; [|done].
    by intros [= <- <-]. }
  unfold getQueryParams. simpl. rewrite lookup_spread, Hset.
  destruct (bq_clickhouse_settings params ≫= (.!! k)); [done|].
  destruct (cfg_clickhouse_settings config) as [m|]; simpl; [done|].
  apply lookup_empty.
Qed.

End construction_facts.

(** * The HTTPS connection *)

Section https_facts.

Context {Buffer Number HeaderVal TLS : Type}.
Context (header_string : list N → HeaderVal).
Context (tls_type : TLS → list N) (tls_ca_cert tls_key tls_cert : TLS → Buffer).

Implicit Types
  (params : NodeConnectionParams (Number := Number) (TLS := TLS))
  (t : TLS).

(** With TLS parameters of type [Mutual] or [Basic] the default headers
    are the user and the key headers, and the certificate header [on]
    for [Mutual] only; no other header is set, so nothing of what the
    base class would build is kept. *)
Theorem buildDefaultHeaders_tls super params t username password k :
  tls params = Some t →
  tls_type t = js "Mutual" ∨ tls_type t = js "Basic" →
  buildDefaultHeaders header_string tls_type super params username password
    !! k
  = if decide (k = js "X-ClickHouse-User") then Some (header_string username)
    else if decide (k = js "X-ClickHouse-Key")
    then Some (header_string password)
    else if decide (k = js "X-ClickHouse-SSL-Certificate-Auth"
                    ∧ tls_type t = js "Mutual")
    then Some (header_string (js "on"))
    else None.
Proof.
  clear tls_ca_cert tls_key tls_cert.
  intros Htls Htype. unfold buildDefaultHeaders. rewrite Htls.
  cbn [fmap option_fmap option_map].
  assert (Hkeys : js "X-ClickHouse-User" ≠ js "X-ClickHouse-Key"
                  ∧ js "X-ClickHouse-User"
                    ≠ js "X-ClickHouse-SSL-Certificate-Auth"
                  ∧ js "X-ClickHouse-Key"
                    ≠ js "X-ClickHouse-SSL-Certificate-Auth"
                  ∧ js "Basic" ≠ js "Mutual") by done.
  destruct Hkeys as (Huk & Hus & Hks & Hbm).
  generalize dependent (js "X-ClickHouse-User").
  generalize dependent (js "X-ClickHouse-Key").
  generalize dependent (js "X-ClickHouse-SSL-Certificate-Auth").
  generalize dependent (js "Mutual"). generalize dependent (js "Basic").
  intros basic mutual [Hm|Hb] Hbm auth key Hks user Huk Hus.
  - rewrite decide_True by (by rewrite Hm).
    rewrite !lookup_insert, lookup_empty.
    repeat case_decide; destruct_and?; try done; try congruence;
      exfalso; eauto.
  - rewrite decide_False by (rewrite Hb; congruence).
    rewrite decide_True by (by rewrite Hb).
    rewrite !lookup_insert, lookup_empty.
    assert (tls_type t ≠ mutual) by (rewrite Hb; congruence).
    repeat case_decide; destruct_and?; try done; try congruence;
      exfalso; eauto.
Qed.

(** The agent gets a private key exactly when it gets a client
    certificate, which is exactly when the TLS parameters are of type
    [Mutual]; the requests then carry the certificate header [on].  The
    authority certificate is passed whenever TLS parameters are given. *)
Theorem httpsAgentOptions_certificate super params username password :
  let options :=
    httpsAgentOptions tls_type tls_ca_cert tls_key tls_cert params in
  (is_Some (key options) ↔ is_Some (cert options))
  ∧ (is_Some (cert options) ↔ tls_type <$> tls params = Some (js "Mutual"))
  ∧ (is_Some (cert options) →
     buildDefaultHeaders header_string tls_type super params username password
       !! js "X-ClickHouse-SSL-Certificate-Auth"
     = Some (header_string (js "on")))
  ∧ (is_Some (ca options) ↔ is_Some (tls params)).
Proof.
  unfold httpsAgentOptions, buildDefaultHeaders. cbn [key cert ca].
  destruct (tls params) as [t|]; cbn [fmap option_fmap option_map].
  - destruct (decide (tls_type t = js "Mutual")) as [Hm|Hm].
    + rewrite decide_True by congruence.
      split; [done|]. split; [split; [congruence|eauto]|].
      split; [intros _; apply lookup_insert_eq|]. split; eauto.
    + rewrite decide_False by congruence.
      split; [done|].
      split; [split; [by intros [? [=]]|by intros [= ?]]|].
      split; [by intros [? [=]]|]. split; eauto.
  - rewrite decide_False by done.
    split; [done|]. split; [split; [by intros [? [=]]|done]|].
    split; [by intros [? [=]]|]. split; by intros [? [=]].
Qed.

End https_facts.

(** * The added theorems at concrete inputs *)

Lemma removeTrailingSemi_with_other_character_witness :
  removeTrailingSemi (js "S;;") = dropTrailingSemis (js "S;;")
  ∧ removeTrailingSemi (js "S;;") ≠ []
  ∧ last (removeTrailingSemi (js "S;;")) ≠ Some semi.
Proof.
  apply (removeTrailingSemi_with_other_character (js "S;;") 83%N).
  - exact (list_elem_of_here 83%N (js ";;")).
  - discriminate.
Defined.

Lemma removeTrailingSemi_without_trailing_semi_witness :
  last (js "SELECT ';'") ≠ Some semi
  ∧ removeTrailingSemi (js "SELECT ';'") = js "SELECT ';'".
Proof.
  assert (H : last (js "SELECT ';'") ≠ Some semi) by discriminate.
  split; [exact H|].
  exact (removeTrailingSemi_without_trailing_semi (js "SELECT ';'") H).
Defined.

Lemma formatQuery_terminated_witness :
  formatQuery (js " SELECT 1" ++ replicate 2 semi ++ js "  ") JSON
  = trim (js " SELECT 1") ++ (js " " ++ [LF] ++ js "FORMAT ")
    ++ format_name JSON.
Proof.
  apply (formatQuery_terminated (js " SELECT 1") 49%N 2 (js "  ") JSON).
  - reflexivity.
  - reflexivity.
  - discriminate.
  - by repeat constructor.
Defined.

Lemma formatQuery_keeps_inner_white_space_witness :
  formatQuery (js "SELECT 1" ++ ([] ++ [32%N]) ++ replicate 1 semi) JSON
  = (js "SELECT 1" ++ [] ++ [32%N]) ++ (js " " ++ [LF] ++ js "FORMAT ")
    ++ format_name JSON.
Proof.
  apply (formatQuery_keeps_inner_white_space (js "SELECT 1") [] 32%N 0 JSON).
  - reflexivity.
  - by repeat constructor.
Defined.

Lemma exec_terminated_witness :
  exec sample_client
       {| ep_base := sample_base;
          ep_query := js "SELECT 1" ++ replicate 3 semi ++ js " " |}
       sample_state
  = (Return {| stream := 0; res_query_id := js "q2" |},
     {| trace := [ConnExec {| rq_query := js "SELECT 1";
                              rq_params :=
                                getQueryParams sample_client sample_base |}];
        world := 1 |}).
Proof.
  apply (exec_terminated sample_client sample_base (js "SELECT 1") 49%N 3
           (js " ") sample_state).
  - reflexivity.
  - reflexivity.
  - discriminate.
  - by repeat constructor.
Defined.

Lemma query_terminated_witness :
  query sample_client
        {| qp_base := sample_base;
           qp_query := js "SELECT 1" ++ replicate 1 semi ++ js " ";
           qp_format := None |}
        sample_state
  = (Return (0, JSON, js "q1"),
     {| trace := [ConnQuery
                    {| rq_query := js "SELECT 1 " ++ [LF] ++ js "FORMAT JSON";
                       rq_params :=
                         getQueryParams sample_client sample_base |};
                  MakeResultSet 0 JSON (js "q1")];
        world := 1 |}).
Proof.
  apply (query_terminated sample_client sample_base None (js "SELECT 1")
           49%N 1 (js " ") sample_state).
  - reflexivity.
  - reflexivity.
  - discriminate.
  - by repeat constructor.
Defined.

Lemma insert_encoding_error_witness :
  insert (sample_client_with sample_connection sample_throwing_encoder)
         (sample_insert (js "t") [1]) sample_state
  = (Throw (Thrown (js "cannot encode")),
     {| trace := [ValidateInsertValues [1] JSONCompactEachRow;
                  EncodeValues [1] JSONCompactEachRow];
        world := 0 |}).
Proof.
  exact (insert_encoding_error
           (sample_client_with sample_connection sample_throwing_encoder)
           (sample_insert (js "t") [1]) sample_state _ _ _ eq_refl eq_refl).
Defined.

Lemma insert_blank_table_witness :
  ∃ result s',
    insert sample_client (sample_insert (js "  ") [1]) sample_state
    = (result, s')
    ∧ last (trace s')
      = Some (ConnInsert
                {| ri_query := js "INSERT INTO  FORMAT JSONCompactEachRow";
                   ri_values := inl (js "[1]");
                   ri_params := getQueryParams sample_client sample_base |}).
Proof.
  apply (insert_blank_table sample_client sample_base (js "  ") [1] None
           sample_state 0 (inl (js "[1]")) 0).
  - by repeat constructor.
  - reflexivity.
  - reflexivity.
Defined.

Lemma ping_rethrows_witness :
  ping (sample_client_with sample_rejecting_connection sample_values_encoder)
       sample_state
  = (Throw (Thrown (js "ECONNREFUSED")),
     {| trace := [ConnPing]; world := 1 |}).
Proof.
  exact (ping_rethrows
           (sample_client_with sample_rejecting_connection
                               sample_values_encoder)
           sample_state _ _ eq_refl).
Defined.

Lemma getConnectionParams_defaults_witness :
  ∃ p,
    getConnectionParams sample_platform (sample_config None) 0
    = (Return p, 0)
    ∧ cp_request_timeout p = 300000%float
    ∧ cp_max_open_connections p = infinity
    ∧ cp_username p = js "default".
Proof.
  eexists. split.
  - exact (getConnectionParams_defaults sample_platform sample_impl None
             (js "http:") () 0 () 0 0 eq_refl eq_refl eq_refl).
  - repeat split.
Defined.

Lemma constructor_connects_witness :
  ∃ p,
    getConnectionParams sample_platform
      (sample_config_with ∅ (js "session")) 0 = (Return p, 0)
    ∧ cp_url p = js "https:"
    ∧ constructor sample_platform (sample_config_with ∅ (js "session"))
                  sample_state
      = (Return {| connectionParams := p;
                   connection := sample_connection;
                   makeResultSet := make_result_set sample_impl;
                   valuesEncoder := sample_values_encoder;
                   closeStream := close_stream sample_impl;
                   sessionId := Some (js "session") |},
         {| trace := [MakeConnection p]; world := 0 |}).
Proof.
  eexists. split; [reflexivity|]. split; [reflexivity|].
  exact (constructor_connects sample_platform
           (sample_config_with ∅ (js "session")) sample_state
           (or_intror eq_refl)).
Defined.

Lemma constructed_client_witness :
  ∃ client s',
    constructor sample_platform (sample_config_with ∅ (js "session"))
                sample_state = (Return client, s')
    ∧ cp_url (connectionParams client) = js "https:"
    ∧ trace s' = [MakeConnection (connectionParams client)]
    ∧ sessionId client = Some (js "session").
Proof.
  destruct (constructor sample_platform (sample_config_with ∅ (js "session"))
                        sample_state) as [[client|e] s'] eqn:Hnew.
  - exists client, s'. split; [reflexivity|].
    destruct (constructed_client _ _ _ _ _ Hnew)
      as (Hurl & _ & Htrace & Hsession & _).
    split; [by injection Hurl|]. by split.
  - discriminate Hnew.
Defined.

Lemma constructed_client_settings_witness :
  ∃ client s',
    constructor sample_platform
      (sample_config_with {[ js "max_threads" := js "4" ]} (js "session"))
      sample_state = (Return client, s')
    ∧ clickhouse_settings (getQueryParams client sample_base)
        !! js "max_threads" = Some (js "4").
Proof.
  destruct (constructor sample_platform
              (sample_config_with {[ js "max_threads" := js "4" ]}
                                  (js "session"))
              sample_state) as [[client|e] s'] eqn:Hnew.
  - exists client, s'. split; [reflexivity|].
    exact (constructed_client_settings _ _ _ _ _ sample_base
             (js "max_threads") Hnew).
  - discriminate Hnew.
Defined.

Lemma buildDefaultHeaders_tls_witness :
  buildDefaultHeaders id fst sample_super_headers
    (sample_node_params (Some (js "Basic", 7))) (js "alice") (js "secret")
    !! js "Authorization" = None
  ∧ buildDefaultHeaders id fst sample_super_headers
      (sample_node_params (Some (js "Basic", 7))) (js "alice") (js "secret")
      !! js "X-ClickHouse-Key" = Some (js "secret").
Proof.
  split.
  - exact (buildDefaultHeaders_tls id fst sample_super_headers
             (sample_node_params (Some (js "Basic", 7))) (js "Basic", 7)
             (js "alice") (js "secret") (js "Authorization")
             eq_refl (or_intror eq_refl)).
  - exact (buildDefaultHeaders_tls id fst sample_super_headers
             (sample_node_params (Some (js "Basic", 7))) (js "Basic", 7)
             (js "alice") (js "secret") (js "X-ClickHouse-Key")
             eq_refl (or_intror eq_refl)).
Defined.

Lemma httpsAgentOptions_certificate_witness :
  buildDefaultHeaders id fst sample_super_headers
    (sample_node_params (Some (js "Mutual", 7))) (js "alice") (js "secret")
    !! js "X-ClickHouse-SSL-Certificate-Auth" = Some (js "on").
Proof.
  destruct (httpsAgentOptions_certificate id fst snd snd snd
              sample_super_headers
              (sample_node_params (Some (js "Mutual", 7)))
              (js "alice") (js "secret")) as (_ & _ & Hheader & _).
  apply Hheader. by eexists.
Defined.

Lemma command_terminated_witness :
  command sample_client
          {| ep_base := sample_base;
             ep_query := js "DROP TABLE t" ++ replicate 1 semi ++ [LF] |}
          sample_state
  = (Return {| cr_query_id := js "q2" |},
     {| trace := [ConnExec {| rq_query := js "DROP TABLE t";
                              rq_params :=
                                getQueryParams sample_client sample_base |};
                  CloseStream 0];
        world := 1 |}).
Proof.
  apply (command_terminated sample_client sample_base (js "DROP TABLE t")
           116%N 1 [LF] sample_state).
  - reflexivity.
  - reflexivity.
  - discriminate.
  - by repeat constructor.
Defined.
